(** * gen_cmake.py: collecting sources and rendering CMakeLists.txt

    A shallow embedding of the generator script.  The script walks the
    resolved working directory with [root.rglob], filters the hits,
    renders a fixed CMake template around them and writes the result to
    CMakeLists.txt in that same directory.

    Modelling conventions.
    - A Python [str] is a Rocq [string] holding its UTF-8 bytes, so the
      text handed to [write_text(..., encoding=utf-8)] is the file's byte
      content as it stands.  Names are assumed to be valid UTF-8.
    - A [Path] is the list of its [parts]; the anchor of an absolute POSIX
      path is the first part.
    - The directory tree is a rose tree whose child lists are in the
      order the directory scan reports them.  Matching is case-sensitive
      (POSIX), symbolic links and unreadable directories are left out. *)

From Stdlib Require Import List String Ascii Arith Bool Lia Permutation.
From Stdlib Require DecimalString.
Import ListNotations.

Open Scope string_scope.
Open Scope list_scope.

Infix "+++" := String.append (right associativity, at level 60).

(** ** Python string methods used by the script *)

Module Str.

Definition nl : string := String (ascii_of_nat 10) EmptyString.

(** [s.startswith(pre)] *)
Definition startswith (s pre : string) : bool := String.prefix pre s.

(** [s.endswith(suf)] *)
Definition endswith (s suf : string) : bool :=
  Nat.leb (String.length suf) (String.length s) &&
  String.eqb
    (String.substring (String.length s - String.length suf)
                      (String.length suf) s)
    suf.

(** [sep.join(items)] *)
Fixpoint join (sep : string) (items : list string) : string :=
  match items with
  | [] => EmptyString
  | [x] => x
  | x :: rest => x +++ sep +++ join sep rest
  end.

(** [str(n)] for a non-negative int *)
Definition of_nat (n : nat) : string :=
  DecimalString.NilEmpty.string_of_uint (Nat.to_uint n).

End Str.

(** ** Paths *)

Definition path := list string.

Inductive exn : Type :=
| ValueError          (* relative_to on a path outside the base *)
| IsADirectoryError.  (* opening a directory for writing *)

Definition result (A : Type) : Type := (exn + A)%type.

Module PurePath.

Definition parts (p : path) : list string := p.

(** [p.name]: the final component, empty when there is none. *)
Definition name (p : path) : string := last p EmptyString.

(** [x in p.parts] *)
Definition has_part (x : string) (p : path) : bool :=
  existsb (String.eqb x) (parts p).

(** [p.relative_to(base)]: strips [base], raises [ValueError] when
    [base] is not a leading run of [p]'s parts. *)
Fixpoint relative_to (p base : path) {struct base} : result path :=
  match base, p with
  | [], _ => inr p
  | b :: base', x :: p' =>
      if String.eqb b x then relative_to p' base' else inl ValueError
  | _ :: _, [] => inl ValueError
  end.

(** [str(p)] of a relative path *)
Definition str (p : path) : string := Str.join "/" p.

End PurePath.

(** ** The directory tree *)

#[local] Unset Elimination Schemes.
Inductive node : Type :=
| File (name : string) (content : string)
| Dir (name : string) (children : list node).
#[local] Set Elimination Schemes.

Definition node_name (n : node) : string :=
  match n with
  | File nm _ => nm
  | Dir nm _ => nm
  end.

Definition is_file (n : node) : bool :=
  match n with
  | File _ _ => true
  | Dir _ _ => false
  end.

Section NodeInd.
Variable P : node -> Prop.
Hypothesis P_file : forall nm c, P (File nm c).
Hypothesis P_dir : forall nm cs, Forall P cs -> P (Dir nm cs).

Fixpoint node_forall_ind (n : node) : P n :=
  match n with
  | File nm c => P_file nm c
  | Dir nm cs =>
      P_dir nm cs
        ((fix all (l : list node) : Forall P l :=
            match l with
            | [] => Forall_nil P
            | x :: r => Forall_cons x (node_forall_ind x) (all r)
            end) cs)
  end.
End NodeInd.

(** ** [Path.rglob]

    [root.rglob(pat)] visits the directory itself and then every
    subdirectory in pre-order; in each it yields the entries (files and
    directories alike) whose name matches the pattern, in listing order.
    The yielded paths extend the path the walk started from. *)

Definition pattern_suffix : string := ".cpp".

(** fnmatch of a name against the pattern [*.cpp] *)
Definition fnmatch_cpp (nm : string) : bool := Str.endswith nm pattern_suffix.

Definition select (dir : path) (es : list node) : list path :=
  map (fun n => dir ++ [node_name n])
      (filter (fun n => fnmatch_cpp (node_name n)) es).

Fixpoint rglob_node (parent : path) (n : node) : list path :=
  match n with
  | File _ _ => []
  | Dir d cs =>
      select (parent ++ [d]) cs ++ flat_map (rglob_node (parent ++ [d])) cs
  end.

Definition rglob (root : path) (es : list node) : list path :=
  select root es ++ flat_map (rglob_node root) es.

(** ** The script *)

Definition PROJECT : string := "VulkanSandbox".
Definition CPP_STD : string := "20".

Definition skipped (p : path) : bool :=
  PurePath.has_part "build" p || Str.startswith (PurePath.name p) ".".

(** The body of the [for] loop of [collect_sources], [sources] being the
    list built so far. *)
Fixpoint collect_loop (root : path) (hits : list path) (sources : list path)
  : result (list path) :=
  match hits with
  | [] => inr sources
  | p :: rest =>
      if skipped p then collect_loop root rest sources
      else
        match PurePath.relative_to p root with
        | inl e => inl e
        | inr rel => collect_loop root rest (sources ++ [rel])
        end
  end.

Definition collect_sources (root : path) (tree : list node)
  : result (list path) :=
  collect_loop root (rglob root tree) [].

(** [make_cmake]: the f-string, line by line; [src_list] is spliced after
    the four blanks the template puts before it. *)
Definition make_cmake (sources : list path) : string :=
  let src_list := Str.join (Str.nl +++ "    ") (map PurePath.str sources) in
  "cmake_minimum_required(VERSION 3.20)" +++ Str.nl +++
  "project(" +++ PROJECT +++ " LANGUAGES CXX)" +++ Str.nl +++
  Str.nl +++
  "set(CMAKE_CXX_STANDARD " +++ CPP_STD +++ ")" +++ Str.nl +++
  "set(CMAKE_CXX_STANDARD_REQUIRED ON)" +++ Str.nl +++
  "set(CMAKE_EXPORT_COMPILE_COMMANDS ON)" +++ Str.nl +++
  Str.nl +++
  "# Список исходников" +++ Str.nl +++
  "set(SRC" +++ Str.nl +++
  "    " +++ src_list +++ Str.nl +++
  ")" +++ Str.nl +++
  Str.nl +++
  "add_executable(" +++ PROJECT +++ " ${SRC})" +++ Str.nl +++
  Str.nl +++
  "# Vulkan SDK (если стоит в системе)" +++ Str.nl +++
  "find_package(Vulkan REQUIRED)" +++ Str.nl +++
  "target_include_directories(" +++ PROJECT +++
    " PRIVATE ${Vulkan_INCLUDE_DIRS})" +++ Str.nl +++
  "target_link_libraries(" +++ PROJECT +++
    " PRIVATE ${Vulkan_LIBRARIES})" +++ Str.nl +++
  Str.nl +++
  "# Добавляем корневые include" +++ Str.nl +++
  "target_include_directories(" +++ PROJECT +++ " PRIVATE" +++ Str.nl +++
  "    ${CMAKE_SOURCE_DIR}" +++ Str.nl +++
  ")" +++ Str.nl.

(** ** The process: working directory, standard output, exceptions *)

Record world : Type := World {
  cwd_entries : list node;   (* the entries of the working directory *)
  stdout : list string       (* one item per [print] call *)
}.

(** A computation may raise; what it did to the world before stays. *)
Definition Proc (A : Type) : Type := world -> result A * world.

Definition ret {A} (a : A) : Proc A := fun w => (inr a, w).

Definition bind {A B} (m : Proc A) (k : A -> Proc B) : Proc B :=
  fun w =>
    match m w with
    | (inl e, w') => (inl e, w')
    | (inr a, w') => k a w'
    end.

Notation "x <- m ;; k" := (bind m (fun x => k))
  (at level 61, m at next level, right associativity).
Notation "m ;;; k" := (bind m (fun _ => k))
  (at level 61, right associativity).

Definition print (line : string) : Proc unit :=
  fun w => (inr tt, World (cwd_entries w) (stdout w ++ [line])).

(** Opening [nm] in a directory for writing and storing [text]: an
    existing regular file is truncated and refilled where it stands, a
    missing one is created, a directory of that name cannot be opened. *)
Fixpoint write_entry (nm text : string) (es : list node)
  : result (list node) :=
  match es with
  | [] => inr [File nm text]
  | e :: rest =>
      if String.eqb (node_name e) nm then
        match e with
        | File _ _ => inr (File nm text :: rest)
        | Dir _ _ => inl IsADirectoryError
        end
      else
        match write_entry nm text rest with
        | inl x => inl x
        | inr rest' => inr (e :: rest')
        end
  end.

(** [Path(nm).write_text(text, encoding=utf-8)], [nm] relative to the
    working directory. *)
Definition write_text (nm text : string) : Proc unit :=
  fun w =>
    match write_entry nm text (cwd_entries w) with
    | inl e => (inl e, w)
    | inr es => (inr tt, World es (stdout w))
    end.

(** The content of the regular file [nm] of a directory, if there is one. *)
Fixpoint read_entry (nm : string) (es : list node) : option string :=
  match es with
  | [] => None
  | e :: rest =>
      if String.eqb (node_name e) nm then
        match e with
        | File _ c => Some c
        | Dir _ _ => None
        end
      else read_entry nm rest
  end.

(** [collect_sources()] reads the tree below [root], the resolved working
    directory. *)
Definition collect_sources_io (root : path) : Proc (list path) :=
  fun w => (collect_sources root (cwd_entries w), w).

Definition OUTPUT : string := "CMakeLists.txt".

(** The [__main__] block. *)
Definition main (root : path) : Proc unit :=
  srcs <- collect_sources_io root ;;
  match srcs with
  | [] => print "*.cpp не найдено"
  | _ :: _ =>
      let cmake_txt := make_cmake srcs in
      write_text OUTPUT cmake_txt ;;;
      print ("CMakeLists.txt создан, найдено " +++
             Str.of_nat (List.length srcs) +++ " cpp файлов.")
  end.

(** The exit status of the interpreter: 0, or 1 after an uncaught
    exception. *)
Definition exit_status {A} (r : result A) : nat :=
  match r with
  | inr _ => 0
  | inl _ => 1
  end.

(** ** Notions the properties are stated with *)

Definition not_found : string := "*.cpp не найдено".

Definition created (count : nat) : string :=
  "CMakeLists.txt создан, найдено " +++ Str.of_nat count +++ " cpp файлов.".

(** A hit, given relative to the root, survives the test the loop makes
    on the absolute path. *)
Definition kept (root rel : path) : bool := negb (skipped (root ++ rel)).

(** [entry_at tree rel n]: [n] is the entry that the root-relative path
    [rel] names in [tree]. *)
Inductive entry_at : list node -> path -> node -> Prop :=
| at_here es n :
    In n es -> entry_at es [node_name n] n
| at_below es d cs rel n :
    In (Dir d cs) es -> entry_at cs rel n -> entry_at es (d :: rel) n.

(** The set the specification describes: the regular files of the tree
    whose name ends with the suffix, with no part of the root-relative
    path equal to build and no leading dot in the base name. *)
Definition spec_source (tree : list node) (rel : path) : Prop :=
  exists nm c,
    entry_at tree rel (File nm c)
    /\ Str.endswith nm ".cpp" = true
    /\ ~ In "build" rel
    /\ Str.startswith (PurePath.name rel) "." = false.

Inductive same_node : node -> node -> Prop :=
| same_file nm c : same_node (File nm c) (File nm c)
| same_dir nm cs cs' : same_entries cs cs' -> same_node (Dir nm cs) (Dir nm cs')
with same_entries : list node -> list node -> Prop :=
| same_nil : same_entries [] []
| same_cons x y l l' :
    same_node x y -> same_entries l l' -> same_entries (x :: l) (y :: l')
| same_perm l l' : Permutation l l' -> same_entries l l'
| same_trans l1 l2 l3 :
    same_entries l1 l2 -> same_entries l2 l3 -> same_entries l1 l3.

Scheme same_node_min := Minimality for same_node Sort Prop
  with same_entries_min := Minimality for same_entries Sort Prop.
Combined Scheme same_tree_mutind from same_node_min, same_entries_min.

Fixpoint unlines (ls : list string) : string :=
  match ls with
  | [] => EmptyString
  | l :: rest => l +++ Str.nl +++ unlines rest
  end.

(** The lines the template puts before and after the source list. *)
Definition head_lines : list string :=
  [ "cmake_minimum_required(VERSION 3.20)";
    "project(VulkanSandbox LANGUAGES CXX)";
    EmptyString;
    "set(CMAKE_CXX_STANDARD 20)";
    "set(CMAKE_CXX_STANDARD_REQUIRED ON)";
    "set(CMAKE_EXPORT_COMPILE_COMMANDS ON)";
    EmptyString;
    "# Список исходников";
    "set(SRC" ].

Definition tail_lines : list string :=
  [ ")";
    EmptyString;
    "add_executable(VulkanSandbox ${SRC})";
    EmptyString;
    "# Vulkan SDK (если стоит в системе)";
    "find_package(Vulkan REQUIRED)";
    "target_include_directories(VulkanSandbox PRIVATE ${Vulkan_INCLUDE_DIRS})";
    "target_link_libraries(VulkanSandbox PRIVATE ${Vulkan_LIBRARIES})";
    EmptyString;
    "# Добавляем корневые include";
    "target_include_directories(VulkanSandbox PRIVATE";
    "    ${CMAKE_SOURCE_DIR}";
    ")" ].

(** One entry of the SRC list: four blanks, then the path. *)
Definition src_line (s : path) : string := "    " +++ PurePath.str s.

(** The first entry called [nm] is a directory. *)
Fixpoint is_dir (nm : string) (es : list node) : bool :=
  match es with
  | [] => false
  | e :: rest =>
      if String.eqb (node_name e) nm then negb (is_file e) else is_dir nm rest
  end.

Definition others (nm : string) (es : list node) : list node :=
  filter (fun e => negb (String.eqb (node_name e) nm)) es.

Definition plain_root : path := ["/"; "home"; "user"; "project"].
Definition build_root : path := ["/"; "home"; "user"; "build"; "project"].

(** The tree of the specification's example. *)
Definition example_tree (c1 c2 c3 c4 : string) : list node :=
  [ File "main.cpp" c1;
    Dir "build" [File "cached.cpp" c2];
    File ".hidden.cpp" c3;
    Dir "lib" [File "util.cpp" c4] ].

(** ** Notions the further properties are stated with *)

(** The entries of one directory that the loop keeps, as root-relative
    paths. *)
Definition top_level (root : path) (es : list node) : list path :=
  map (fun n => [node_name n])
      (filter (fun n => fnmatch_cpp (node_name n)
                        && negb (skipped (root ++ [node_name n]))) es).

(** What a scan started inside the subdirectory [n] of [root] collects,
    each path given from [root]. *)
Definition below (root : path) (n : node) : list path :=
  match n with
  | File _ _ => []
  | Dir d cs =>
      match collect_sources (root ++ [d]) cs with
      | inr l => map (cons d) l
      | inl _ => []
      end
  end.

(** No name occurs twice in a directory, at any depth. *)
Fixpoint names_distinct (l : list string) : bool :=
  match l with
  | [] => true
  | x :: r => negb (existsb (String.eqb x) r) && names_distinct r
  end.

Fixpoint wf_node (n : node) : bool :=
  match n with
  | File _ _ => true
  | Dir _ cs => names_distinct (map node_name cs) && forallb wf_node cs
  end.

Definition wf_tree (es : list node) : bool :=
  names_distinct (map node_name es) && forallb wf_node es.

(** The tree with every file emptied. *)
Fixpoint strip (n : node) : node :=
  match n with
  | File nm _ => File nm EmptyString
  | Dir nm cs => Dir nm (map strip cs)
  end.

(** [c in s] *)
Fixpoint mentions (c : ascii) (s : string) : bool :=
  match s with
  | EmptyString => false
  | String a r => Ascii.eqb a c || mentions c r
  end.

Definition slash : ascii := "/"%char.
Definition newline : ascii := ascii_of_nat 10.

(** An ordinary file name: not empty, no separator, no line break. *)
Definition plain_segment (s : string) : bool :=
  negb (String.eqb s EmptyString)
  && negb (mentions slash s) && negb (mentions newline s).

(** A path of at least one part, all of them ordinary names. *)
Definition plain_path (p : path) : bool :=
  match p with
  | [] => false
  | _ :: _ => forallb plain_segment p
  end.

(** The lines of the SRC block: one per path, or a single line of four
    blanks when there is no path. *)
Definition src_lines (srcs : list path) : list string :=
  match srcs with
  | [] => ["    "]
  | _ :: _ => map src_line srcs
  end.

(** * Properties *)

(** ** Paths and strings *)

Lemma relative_to_app (root rel : path) :
  PurePath.relative_to (root ++ rel) root = inr rel.
Proof.
  induction root as [|b root IH]; simpl.
  - reflexivity.
  - rewrite String.eqb_refl. exact IH.
Qed.

Lemma has_part_app (x : string) (p q : path) :
  PurePath.has_part x (p ++ q) = PurePath.has_part x p || PurePath.has_part x q.
Proof. unfold PurePath.has_part, PurePath.parts. apply existsb_app. Qed.

Lemma has_part_In (x : string) (p : path) :
  PurePath.has_part x p = true <-> In x p.
Proof.
  unfold PurePath.has_part, PurePath.parts. rewrite existsb_exists. split.
  - intros [y [Hy Heq]]. apply String.eqb_eq in Heq. now subst.
  - intros H. exists x. split; [assumption | apply String.eqb_refl].
Qed.

Lemma has_part_notIn (x : string) (p : path) :
  ~ In x p -> PurePath.has_part x p = false.
Proof.
  intros H. destruct (PurePath.has_part x p) eqn:E; [|reflexivity].
  apply has_part_In in E. contradiction.
Qed.

Lemma name_app (root rel : path) :
  rel <> [] -> PurePath.name (root ++ rel) = PurePath.name rel.
Proof.
  intros Hne. unfold PurePath.name.
  induction root as [|b root IH]; simpl; [reflexivity|].
  destruct (root ++ rel) eqn:E; [|exact IH].
  apply app_eq_nil in E. destruct E as [_ E]. contradiction.
Qed.

Lemma name_snoc (dir : path) (nm : string) :
  PurePath.name (dir ++ [nm]) = nm.
Proof. unfold PurePath.name. apply last_last. Qed.

(** ** The walk *)

Lemma select_shift (pre dir : path) (es : list node) :
  select (pre ++ dir) es = map (app pre) (select dir es).
Proof.
  unfold select. rewrite map_map. apply map_ext.
  intros n. now rewrite app_assoc.
Qed.

Lemma rglob_node_shift (pre : path) (n : node) :
  forall parent,
    rglob_node (pre ++ parent) n = map (app pre) (rglob_node parent n).
Proof.
  induction n as [nm c | d cs IH] using node_forall_ind; intros parent; simpl.
  - reflexivity.
  - rewrite map_app, <- app_assoc, select_shift. f_equal.
    induction IH as [|x r Hx _ IHr]; simpl; [reflexivity|].
    now rewrite map_app, Hx, IHr.
Qed.

Lemma rglob_shift (root : path) (es : list node) :
  rglob root es = map (app root) (rglob [] es).
Proof.
  unfold rglob. rewrite map_app. f_equal.
  - rewrite <- (app_nil_r root) at 1. apply select_shift.
  - induction es as [|x r IH]; simpl; [reflexivity|].
    rewrite map_app, IH. f_equal.
    rewrite <- (app_nil_r root) at 1. apply rglob_node_shift.
Qed.

Lemma select_nonempty (dir : path) (es : list node) :
  Forall (fun p => p <> []) (select dir es).
Proof.
  unfold select. apply Forall_forall. intros p Hp.
  apply in_map_iff in Hp. destruct Hp as [n [<- _]].
  intros E. apply app_eq_nil in E. destruct E as [_ E]. discriminate.
Qed.

Lemma rglob_node_nonempty (n : node) :
  forall parent, Forall (fun p => p <> []) (rglob_node parent n).
Proof.
  induction n as [nm c | d cs IH] using node_forall_ind; intros parent; simpl.
  - constructor.
  - apply Forall_app. split; [apply select_nonempty|].
    induction IH as [|x r Hx _ IHr]; simpl; [constructor|].
    apply Forall_app. split; [apply Hx | exact IHr].
Qed.

Lemma rglob_nonempty (root : path) (es : list node) :
  Forall (fun p => p <> []) (rglob root es).
Proof.
  unfold rglob. apply Forall_app. split; [apply select_nonempty|].
  induction es as [|x r IH]; simpl; [constructor|].
  apply Forall_app. split; [apply rglob_node_nonempty | exact IH].
Qed.

(** ** The loop as a filter *)

Lemma collect_loop_filter (root : path) (rels acc : list path) :
  collect_loop root (map (app root) rels) acc
  = inr (acc ++ filter (kept root) rels).
Proof.
  revert acc. induction rels as [|rel rels IH]; intros acc; simpl.
  - now rewrite app_nil_r.
  - unfold kept at 1. destruct (skipped (root ++ rel)); simpl.
    + apply IH.
    + rewrite relative_to_app, IH, <- app_assoc. reflexivity.
Qed.

Lemma collect_sources_filter (root : path) (tree : list node) :
  collect_sources root tree = inr (filter (kept root) (rglob [] tree)).
Proof.
  unfold collect_sources. rewrite rglob_shift. apply collect_loop_filter.
Qed.

Lemma kept_clean_root (root rel : path) :
  ~ In "build" root -> rel <> [] -> kept root rel = kept [] rel.
Proof.
  intros Hroot Hrel. unfold kept, skipped. simpl.
  rewrite has_part_app, (has_part_notIn _ _ Hroot), name_app by assumption.
  reflexivity.
Qed.

Lemma kept_build_root (root rel : path) :
  In "build" root -> kept root rel = false.
Proof.
  intros Hroot. unfold kept, skipped.
  rewrite has_part_app. apply has_part_In in Hroot. now rewrite Hroot.
Qed.

Lemma filter_ext_Forall {A} (f g : A -> bool) (Q : A -> Prop) (l : list A) :
  Forall Q l -> (forall x, Q x -> f x = g x) -> filter f l = filter g l.
Proof.
  intros HQ Hfg. induction HQ as [|x r Hx _ IH]; simpl; [reflexivity|].
  now rewrite (Hfg x Hx), IH.
Qed.

(** Outside a build directory the position of the root plays no part. *)
Lemma collect_sources_clean_root (root : path) (tree : list node) :
  ~ In "build" root ->
  collect_sources root tree = inr (filter (kept []) (rglob [] tree)).
Proof.
  intros Hroot. rewrite collect_sources_filter. f_equal.
  apply filter_ext_Forall with (Q := fun p => p <> []).
  - apply rglob_nonempty.
  - intros rel Hrel. now apply kept_clean_root.
Qed.

(** ** What the walk yields *)

Lemma rglob_node_dir (d : string) (cs : list node) :
  rglob_node [] (Dir d cs) = map (cons d) (rglob [] cs).
Proof.
  simpl. unfold rglob. rewrite map_app. f_equal.
  - apply (select_shift [d] []).
  - induction cs as [|x r IH]; simpl; [reflexivity|].
    rewrite map_app, IH. f_equal. apply (rglob_node_shift [d] x []).
Qed.

Lemma rglob_cases (es : list node) (p : path) :
  In p (rglob [] es) <->
  (exists n, In n es /\ fnmatch_cpp (node_name n) = true /\ p = [node_name n])
  \/ (exists d cs rel,
        In (Dir d cs) es /\ p = d :: rel /\ In rel (rglob [] cs)).
Proof.
  unfold rglob at 1. rewrite in_app_iff, in_flat_map. unfold select.
  rewrite in_map_iff. split.
  - intros [[n [Hp Hn]] | [x [Hx Hp]]].
    + apply filter_In in Hn. destruct Hn as [Hn Hm].
      left. exists n. simpl in Hp. auto.
    + destruct x as [nm c | d cs]; [contradiction|].
      rewrite rglob_node_dir in Hp. apply in_map_iff in Hp.
      destruct Hp as [rel [Hp Hrel]].
      right. exists d, cs, rel. auto.
  - intros [[n [Hn [Hm Hp]]] | [d [cs [rel [Hd [Hp Hrel]]]]]].
    + left. exists n. split; [now subst|].
      apply filter_In. auto.
    + right. exists (Dir d cs). split; [assumption|].
      rewrite rglob_node_dir. apply in_map_iff. exists rel. auto.
Qed.

Lemma rglob_In (p : path) :
  forall es,
    In p (rglob [] es) <->
    exists n, entry_at es p n /\ fnmatch_cpp (node_name n) = true.
Proof.
  induction p as [|a rel IH]; intros es; rewrite rglob_cases; split.
  - intros [[n [_ [_ E]]] | [d [cs [r [_ [E _]]]]]]; discriminate.
  - intros [n [Hat _]]. inversion Hat.
  - intros [[n [Hn [Hm E]]] | [d [cs [r [Hd [E Hr]]]]]].
    + exists n. rewrite E. split; [now constructor | assumption].
    + injection E as -> ->. apply IH in Hr. destruct Hr as [n [Hat Hm]].
      exists n. split; [|assumption]. econstructor; eassumption.
  - intros [n [Hat Hm]]. inversion Hat; subst.
    + left. exists n. auto.
    + right. exists a, cs, rel. repeat split; try assumption.
      apply IH. exists n. auto.
Qed.

(** The paths the script collects when the root lies outside any build
    directory: the [*.cpp] entries of the tree with no part equal to
    build and a leaf name without a leading dot. *)
Lemma collect_sources_In (root : path) (tree : list node) (l : list path) :
  ~ In "build" root ->
  collect_sources root tree = inr l ->
  forall rel,
    In rel l <->
    exists n, entry_at tree rel n
              /\ fnmatch_cpp (node_name n) = true
              /\ skipped rel = false.
Proof.
  intros Hroot Hl rel.
  rewrite (collect_sources_clean_root _ _ Hroot) in Hl.
  injection Hl as <-.
  rewrite filter_In, rglob_In. unfold kept. simpl.
  rewrite negb_true_iff. firstorder.
Qed.

Lemma entry_at_name (es : list node) (rel : path) (n : node) :
  entry_at es rel n -> PurePath.name rel = node_name n.
Proof.
  induction 1 as [es n _ | es d cs rel n _ Hat IH].
  - reflexivity.
  - rewrite <- IH. apply (name_app [d] rel).
    intros ->. inversion Hat.
Qed.

(** ** The same tree listed in another order *)

Lemma filter_Permutation {A} (f : A -> bool) (l l' : list A) :
  Permutation l l' -> Permutation (filter f l) (filter f l').
Proof.
  induction 1 as [| x l l' _ IH | x y l | l1 l2 l3 _ IH1 _ IH2]; simpl.
  - constructor.
  - destruct (f x); [now constructor | assumption].
  - destruct (f x), (f y); try reflexivity. apply perm_swap.
  - now transitivity (filter f l2).
Qed.

Lemma same_tree_walk :
  (forall x y, same_node x y ->
     node_name x = node_name y /\
     forall parent, Permutation (rglob_node parent x) (rglob_node parent y))
  /\
  (forall l l', same_entries l l' ->
     forall dir,
       Permutation (select dir l) (select dir l') /\
       Permutation (flat_map (rglob_node dir) l) (flat_map (rglob_node dir) l')).
Proof.
  apply same_tree_mutind.
  - intros nm c. split; [reflexivity | intros; reflexivity].
  - intros nm cs cs' _ IH. split; [reflexivity|].
    intros parent. simpl. destruct (IH (parent ++ [nm])) as [H1 H2].
    now apply Permutation_app.
  - intros dir. split; constructor.
  - intros x y l l' _ [Hnm Hxy] _ IH dir.
    destruct (IH dir) as [H1 H2]. split.
    + unfold select in *. simpl. rewrite Hnm.
      destruct (fnmatch_cpp (node_name y)); simpl; [|assumption].
      rewrite Hnm. now apply perm_skip.
    + simpl. now apply Permutation_app.
  - intros l l' Hperm dir. split.
    + unfold select. now apply Permutation_map, filter_Permutation.
    + now apply Permutation_flat_map.
  - intros l1 l2 l3 _ IH1 _ IH2 dir.
    destruct (IH1 dir) as [A1 B1]. destruct (IH2 dir) as [A2 B2].
    split; etransitivity; eassumption.
Qed.

Lemma same_entries_rglob (root : path) (l l' : list node) :
  same_entries l l' -> Permutation (rglob root l) (rglob root l').
Proof.
  intros H. destruct same_tree_walk as [_ Hwalk].
  destruct (Hwalk l l' H root) as [H1 H2].
  unfold rglob. now apply Permutation_app.
Qed.

Lemma same_entries_collect (root : path) (l l' : list node) :
  same_entries l l' ->
  exists s s',
    collect_sources root l = inr s /\ collect_sources root l' = inr s'
    /\ Permutation s s'.
Proof.
  intros H. do 2 eexists. rewrite !collect_sources_filter.
  repeat split. apply filter_Permutation. now apply same_entries_rglob.
Qed.

(** ** Rendering *)

Lemma append_assoc (a b c : string) : (a +++ b) +++ c = a +++ b +++ c.
Proof. induction a as [|ch a IH]; simpl; [reflexivity | now rewrite IH]. Qed.

Lemma unlines_app (l1 l2 : list string) :
  unlines (l1 ++ l2) = unlines l1 +++ unlines l2.
Proof.
  induction l1 as [|l r IH]; simpl; [reflexivity|].
  now rewrite IH, !append_assoc.
Qed.

(** Joining with newline-and-indent between an indent and a newline puts
    every item on an indented line of its own. *)
Lemma indented_join (ind : string) (xs : list string) (rest : string) :
  xs <> [] ->
  ind +++ Str.join (Str.nl +++ ind) xs +++ Str.nl +++ rest
  = unlines (map (String.append ind) xs) +++ rest.
Proof.
  intros Hne. induction xs as [|x r IH]; [contradiction|].
  destruct r as [|y r].
  - cbn [Str.join map unlines]. now rewrite !append_assoc.
  - change (Str.join (Str.nl +++ ind) (x :: y :: r))
      with (x +++ (Str.nl +++ ind) +++ Str.join (Str.nl +++ ind) (y :: r)).
    cbn [map unlines] in *. rewrite !append_assoc.
    rewrite IH by discriminate. now rewrite !append_assoc.
Qed.

Lemma make_cmake_lines (srcs : list path) :
  srcs <> [] ->
  make_cmake srcs = unlines (head_lines ++ map src_line srcs ++ tail_lines).
Proof.
  intros Hne. rewrite !unlines_app.
  assert (Hmap : map PurePath.str srcs <> []).
  { destruct srcs; [contradiction | discriminate]. }
  pose proof (indented_join "    " (map PurePath.str srcs)
                (unlines tail_lines) Hmap) as E.
  rewrite map_map in E. fold src_line in E.
  change (map (fun x => src_line x) srcs) with (map src_line srcs) in E.
  rewrite <- E. reflexivity.
Qed.

(** ** Writing into the working directory *)

Lemma write_entry_ok (nm text : string) (es : list node) :
  is_dir nm es = false -> exists es', write_entry nm text es = inr es'.
Proof.
  induction es as [|e r IH]; simpl; intros H.
  - eauto.
  - destruct (String.eqb (node_name e) nm).
    + destruct e; [eauto | discriminate].
    + destruct (IH H) as [r' ->]. eauto.
Qed.

Lemma write_entry_raises (nm text : string) (es : list node) (x : exn) :
  write_entry nm text es = inl x -> is_dir nm es = true.
Proof.
  induction es as [|e r IH]; simpl; [discriminate|].
  destruct (String.eqb (node_name e) nm).
  - destruct e; [discriminate | reflexivity].
  - destruct (write_entry nm text r); [auto | discriminate].
Qed.

Section WriteEntry.
Variables (nm text : string).

Lemma write_entry_read (es es' : list node) :
  write_entry nm text es = inr es' -> read_entry nm es' = Some text.
Proof.
  revert es'. induction es as [|e r IH]; simpl; intros es' H.
  - injection H as <-. simpl. now rewrite String.eqb_refl.
  - destruct (String.eqb (node_name e) nm) eqn:E.
    + destruct e; [|discriminate]. injection H as <-.
      simpl. now rewrite String.eqb_refl.
    + destruct (write_entry nm text r) as [x|r']; [discriminate|].
      injection H as <-. simpl. rewrite E. now apply IH.
Qed.

Lemma write_entry_others (es es' : list node) :
  write_entry nm text es = inr es' -> others nm es' = others nm es.
Proof.
  unfold others. revert es'.
  induction es as [|e r IH]; simpl; intros es' H.
  - injection H as <-. simpl. now rewrite String.eqb_refl.
  - destruct (String.eqb (node_name e) nm) eqn:E.
    + destruct e; [|discriminate]. injection H as <-.
      simpl. now rewrite String.eqb_refl.
    + destruct (write_entry nm text r) as [x|r']; [discriminate|].
      injection H as <-. simpl. rewrite E. simpl. f_equal. now apply IH.
Qed.

Lemma write_entry_again (es es' : list node) :
  write_entry nm text es = inr es' -> write_entry nm text es' = inr es'.
Proof.
  revert es'. induction es as [|e r IH]; simpl; intros es' H.
  - injection H as <-. simpl. now rewrite String.eqb_refl.
  - destruct (String.eqb (node_name e) nm) eqn:E.
    + destruct e; [|discriminate]. injection H as <-.
      simpl. now rewrite String.eqb_refl.
    + destruct (write_entry nm text r) as [x|r']; [discriminate|].
      injection H as <-. simpl. rewrite E. now rewrite (IH r').
Qed.

(** A file whose name the pattern rejects is invisible to the walk. *)
Lemma write_entry_walk (es es' : list node) :
  fnmatch_cpp nm = false ->
  write_entry nm text es = inr es' ->
  forall dir,
    select dir es' = select dir es /\
    flat_map (rglob_node dir) es' = flat_map (rglob_node dir) es.
Proof.
  intros Hnm. unfold select. revert es'.
  induction es as [|e r IH]; simpl; intros es' H dir.
  - injection H as <-. simpl. now rewrite Hnm.
  - destruct (String.eqb (node_name e) nm) eqn:E.
    + destruct e as [n c|n cs]; [|discriminate]. injection H as <-.
      apply String.eqb_eq in E. simpl in *. subst n.
      now rewrite Hnm.
    + destruct (write_entry nm text r) as [x|r']; [discriminate|].
      injection H as <-. destruct (IH r' eq_refl dir) as [H1 H2].
      simpl. rewrite H2. split; [|reflexivity].
      destruct (fnmatch_cpp (node_name e)); simpl; now rewrite H1.
Qed.

Lemma write_entry_rglob (root : path) (es es' : list node) :
  fnmatch_cpp nm = false ->
  write_entry nm text es = inr es' ->
  rglob root es' = rglob root es.
Proof.
  intros Hnm H. unfold rglob.
  destruct (write_entry_walk es es' Hnm H root) as [-> ->]. reflexivity.
Qed.
End WriteEntry.

Lemma OUTPUT_not_source : fnmatch_cpp OUTPUT = false.
Proof. reflexivity. Qed.

(** ** One run *)

(** [main] by cases on what was collected and on how the write went. *)
Lemma main_cases (root : path) (w : world) :
  exists srcs,
    collect_sources root (cwd_entries w) = inr srcs /\
    ( (srcs = [] /\
       main root w = (inr tt, World (cwd_entries w) (stdout w ++ [not_found])))
      \/
      (srcs <> [] /\ exists x,
         write_entry OUTPUT (make_cmake srcs) (cwd_entries w) = inl x /\
         main root w = (inl x, w))
      \/
      (srcs <> [] /\ exists es',
         write_entry OUTPUT (make_cmake srcs) (cwd_entries w) = inr es' /\
         main root w
         = (inr tt, World es' (stdout w ++ [created (List.length srcs)]))) ).
Proof.
  exists (filter (kept root) (rglob [] (cwd_entries w))).
  split; [apply collect_sources_filter|].
  unfold main, bind, collect_sources_io.
  rewrite collect_sources_filter.
  destruct (filter (kept root) (rglob [] (cwd_entries w))) as [|s srcs] eqn:E.
  - left. split; reflexivity.
  - right. unfold write_text.
    destruct (write_entry OUTPUT (make_cmake (s :: srcs)) (cwd_entries w))
      as [x|es'] eqn:W.
    + left. split; [discriminate|]. exists x. split; reflexivity.
    + right. split; [discriminate|]. exists es'. split; reflexivity.
Qed.

(** ** What [startswith] and [endswith] decide *)

Lemma length_append (a b : string) :
  String.length (a +++ b) = String.length a + String.length b.
Proof. induction a as [|c a IH]; simpl; [reflexivity | now rewrite IH]. Qed.

Lemma substring_whole (s : string) : String.substring 0 (String.length s) s = s.
Proof. induction s as [|c s IH]; simpl; [reflexivity | now rewrite IH]. Qed.

Lemma substring_skip (a b : string) (m : nat) :
  String.substring (String.length a) m (a +++ b) = String.substring 0 m b.
Proof. induction a as [|c a IH]; simpl; [reflexivity | exact IH]. Qed.

Lemma substring_split (s : string) :
  forall k, k <= String.length s ->
    s = String.substring 0 k s +++ String.substring k (String.length s - k) s.
Proof.
  induction s as [|c s IH]; intros k Hk; simpl in *.
  - destruct k; reflexivity.
  - destruct k as [|k]; simpl.
    + now rewrite substring_whole.
    + f_equal. apply IH. lia.
Qed.

Lemma endswith_spec (s suf : string) :
  Str.endswith s suf = true <-> exists pre, s = pre +++ suf.
Proof.
  unfold Str.endswith. rewrite andb_true_iff, Nat.leb_le, String.eqb_eq. split.
  - intros [Hlen Hsub]. exists (String.substring 0 (String.length s - String.length suf) s).
    pose proof (substring_split s (String.length s - String.length suf)) as H.
    replace (String.length s - (String.length s - String.length suf))
      with (String.length suf) in H by lia.
    rewrite Hsub in H. apply H. lia.
  - intros [pre ->]. rewrite length_append. split; [lia|].
    replace (String.length pre + String.length suf - String.length suf)
      with (String.length pre) by lia.
    rewrite substring_skip. apply substring_whole.
Qed.

Lemma startswith_spec (s pre : string) :
  Str.startswith s pre = true <-> exists rest, s = pre +++ rest.
Proof.
  unfold Str.startswith. revert s.
  induction pre as [|c pre IH]; intros s; simpl.
  - split; [eauto | intros _; now destruct s].
  - destruct s as [|d s]; simpl.
    + split; [discriminate | intros [r Hr]; discriminate].
    + destruct (Ascii.ascii_dec c d) as [->|Hne].
      * rewrite IH. split; intros [r Hr]; exists r; congruence.
      * split; [discriminate | intros [r Hr]; congruence].
Qed.

(** * The specification's properties, claim by claim *)

(** C1: the collected set is the set of .cpp files with no root-relative
    part equal to build and no hidden base name.  The script does not meet
    this: with the working directory at /home/user/build/project holding
    main.cpp alone, main.cpp belongs to the described set and the script
    collects nothing. *)
Theorem collect_sources_under_build_root :
  spec_source [File "main.cpp" EmptyString] ["main.cpp"]
  /\ collect_sources build_root [File "main.cpp" EmptyString] = inr [].
Proof.
  split; [|reflexivity].
  exists "main.cpp", EmptyString. repeat split.
  - apply (at_here _ (File "main.cpp" EmptyString)). now left.
  - intros [E | []]. discriminate.
Qed.

(** A directory whose name matches the pattern is collected as well. *)
Example collect_sources_takes_directory :
  collect_sources plain_root [Dir "gen.cpp" []] = inr [["gen.cpp"]].
Proof. reflexivity. Qed.

(** C2: with a non-empty collected sequence (and no directory standing
    where the output goes), the run ends normally and CMakeLists.txt
    holds, whatever it held before, exactly the rendered template: the
    fixed lines, and between them one indented line per collected path in
    collection order. *)
Theorem main_writes_descriptor (root : path) (w : world) (srcs : list path) :
  collect_sources root (cwd_entries w) = inr srcs ->
  srcs <> [] ->
  is_dir OUTPUT (cwd_entries w) = false ->
  exists w',
    main root w = (inr tt, w')
    /\ read_entry OUTPUT (cwd_entries w') = Some (make_cmake srcs)
    /\ make_cmake srcs
       = unlines (head_lines ++ map src_line srcs ++ tail_lines).
Proof.
  intros Hsrcs Hne Hdir.
  destruct (main_cases root w) as [srcs' [Hc Hcases]].
  rewrite Hsrcs in Hc. injection Hc as <-.
  destruct Hcases as [[E _] | [[_ [x [Hw _]]] | [_ [es' [Hw Hm]]]]].
  - contradiction.
  - apply write_entry_raises in Hw. congruence.
  - eexists. split; [exact Hm|]. split.
    + simpl. eapply write_entry_read. exact Hw.
    + now apply make_cmake_lines.
Qed.

Lemma main_writes_descriptor_witness :
  exists w',
    main plain_root
      (World [File "main.cpp" "int main(){}"; File "CMakeLists.txt" "old"] [])
    = (inr tt, w')
    /\ read_entry OUTPUT (cwd_entries w') = Some (make_cmake [["main.cpp"]])
    /\ make_cmake [["main.cpp"]]
       = unlines (head_lines ++ map src_line [["main.cpp"]] ++ tail_lines).
Proof.
  apply (main_writes_descriptor plain_root
           (World [File "main.cpp" "int main(){}"; File "CMakeLists.txt" "old"] [])
           [["main.cpp"]]).
  - reflexivity.
  - discriminate.
  - reflexivity.
Defined.

(** C3: when nothing is collected the working directory is left as it
    was (CMakeLists.txt neither created nor changed), the not-found line
    is printed, and the run ends with status 0. *)
Theorem main_nothing_found (root : path) (w : world) :
  collect_sources root (cwd_entries w) = inr [] ->
  cwd_entries (snd (main root w)) = cwd_entries w
  /\ read_entry OUTPUT (cwd_entries (snd (main root w)))
     = read_entry OUTPUT (cwd_entries w)
  /\ stdout (snd (main root w)) = stdout w ++ ["*.cpp не найдено"]
  /\ exit_status (fst (main root w)) = 0.
Proof.
  intros Hnone.
  destruct (main_cases root w) as [srcs [Hc Hcases]].
  rewrite Hnone in Hc. injection Hc as <-.
  destruct Hcases as [[_ Hm] | [[Hne _] | [Hne _]]]; try contradiction.
  rewrite Hm. simpl. repeat split.
Qed.

Lemma main_nothing_found_witness :
  let w := World [File "README.md" "notes"; Dir "build" [File "cached.cpp" "x"]] [] in
  cwd_entries (snd (main plain_root w)) = cwd_entries w
  /\ read_entry OUTPUT (cwd_entries (snd (main plain_root w)))
     = read_entry OUTPUT (cwd_entries w)
  /\ stdout (snd (main plain_root w)) = stdout w ++ ["*.cpp не найдено"]
  /\ exit_status (fst (main plain_root w)) = 0.
Proof.
  apply (main_nothing_found plain_root
           (World [File "README.md" "notes"; Dir "build" [File "cached.cpp" "x"]] [])).
  reflexivity.
Defined.

(** C4: a second run over the directory the first run left behind changes
    nothing: the directory, and with it the content of CMakeLists.txt, is
    the same after both runs, and both runs end the same way. *)
Theorem main_idempotent (root : path) (w : world) :
  let w1 := snd (main root w) in
  let w2 := snd (main root w1) in
  cwd_entries w2 = cwd_entries w1
  /\ read_entry OUTPUT (cwd_entries w2) = read_entry OUTPUT (cwd_entries w1)
  /\ fst (main root w1) = fst (main root w).
Proof.
  intros w1 w2.
  assert (H : cwd_entries w2 = cwd_entries w1
              /\ fst (main root w1) = fst (main root w)).
  { subst w2 w1.
    destruct (main_cases root w) as [srcs [Hc Hcases]].
    destruct Hcases as [[E Hm] | [[Hne [x [Hw Hm]]] | [Hne [es' [Hw Hm]]]]];
      rewrite Hm; simpl.
    - subst srcs.
      destruct (main_cases root (World (cwd_entries w) (stdout w ++ [not_found])))
        as [srcs' [Hc' Hcases']].
      simpl in Hc'. rewrite Hc in Hc'. injection Hc' as <-.
      destruct Hcases' as [[_ Hm'] | [[Hne' _] | [Hne' _]]]; try contradiction.
      rewrite Hm'. split; reflexivity.
    - rewrite Hm. split; reflexivity.
    - destruct (main_cases root (World es' (stdout w ++ [created (List.length srcs)])))
        as [srcs' [Hc' Hcases']].
      simpl in Hc', Hcases'. unfold collect_sources in Hc, Hc'.
      rewrite (write_entry_rglob _ _ root _ _ OUTPUT_not_source Hw) in Hc'.
      rewrite Hc in Hc'. injection Hc' as <-.
      rewrite (write_entry_again _ _ _ _ Hw) in Hcases'.
      destruct Hcases' as [[E _] | [[_ [x [Hw' _]]] | [_ [es'' [Hw' Hm']]]]].
      + contradiction.
      + discriminate.
      + injection Hw' as <-. rewrite Hm'. split; reflexivity. }
  destruct H as [H1 H2]. repeat split; [exact H1 | now rewrite H1 | exact H2].
Qed.

(** C5: for a non-empty path sequence the rendered text is, line by line
    and in this order: the minimum tool version, the project declaration,
    the two language-standard settings, the compile-commands export flag,
    the SRC list with one indented line per path, the target declaration
    over that list, the required Vulkan lookup, its include directories
    and link libraries attached to the target, and the source directory
    added as an include path (blank and comment lines in between). *)
Theorem make_cmake_layout (srcs : list path) :
  srcs <> [] ->
  make_cmake srcs =
  unlines
    ([ "cmake_minimum_required(VERSION 3.20)";
       "project(VulkanSandbox LANGUAGES CXX)";
       EmptyString;
       "set(CMAKE_CXX_STANDARD 20)";
       "set(CMAKE_CXX_STANDARD_REQUIRED ON)";
       "set(CMAKE_EXPORT_COMPILE_COMMANDS ON)";
       EmptyString;
       "# Список исходников";
       "set(SRC" ]
     ++ map (fun s => "    " +++ Str.join "/" s) srcs
     ++ [ ")";
          EmptyString;
          "add_executable(VulkanSandbox ${SRC})";
          EmptyString;
          "# Vulkan SDK (если стоит в системе)";
          "find_package(Vulkan REQUIRED)";
          "target_include_directories(VulkanSandbox PRIVATE ${Vulkan_INCLUDE_DIRS})";
          "target_link_libraries(VulkanSandbox PRIVATE ${Vulkan_LIBRARIES})";
          EmptyString;
          "# Добавляем корневые include";
          "target_include_directories(VulkanSandbox PRIVATE";
          "    ${CMAKE_SOURCE_DIR}";
          ")" ]).
Proof. intros Hne. now rewrite make_cmake_lines. Qed.

Lemma make_cmake_layout_witness :
  make_cmake [["main.cpp"]; ["lib"; "util.cpp"]] =
  unlines
    ([ "cmake_minimum_required(VERSION 3.20)";
       "project(VulkanSandbox LANGUAGES CXX)";
       EmptyString;
       "set(CMAKE_CXX_STANDARD 20)";
       "set(CMAKE_CXX_STANDARD_REQUIRED ON)";
       "set(CMAKE_EXPORT_COMPILE_COMMANDS ON)";
       EmptyString;
       "# Список исходников";
       "set(SRC" ]
     ++ map (fun s => "    " +++ Str.join "/" s) [["main.cpp"]; ["lib"; "util.cpp"]]
     ++ [ ")";
          EmptyString;
          "add_executable(VulkanSandbox ${SRC})";
          EmptyString;
          "# Vulkan SDK (если стоит в системе)";
          "find_package(Vulkan REQUIRED)";
          "target_include_directories(VulkanSandbox PRIVATE ${Vulkan_INCLUDE_DIRS})";
          "target_link_libraries(VulkanSandbox PRIVATE ${Vulkan_LIBRARIES})";
          EmptyString;
          "# Добавляем корневые include";
          "target_include_directories(VulkanSandbox PRIVATE";
          "    ${CMAKE_SOURCE_DIR}";
          ")" ]).
Proof.
  apply (make_cmake_layout [["main.cpp"]; ["lib"; "util.cpp"]]).
  discriminate.
Defined.

Lemma Permutation_In_iff {A} (l l' : list A) :
  Permutation l l' -> forall x, In x l <-> In x l'.
Proof.
  intros H x. split; intros Hx.
  - eapply Permutation_in; eassumption.
  - eapply Permutation_in; [apply Permutation_sym|]; eassumption.
Qed.

(** C6: for the tree holding main.cpp, build/cached.cpp, .hidden.cpp and
    lib/util.cpp, in any listing order and under a root that is not itself
    inside a build directory, the collected set is main.cpp and
    lib/util.cpp; build/cached.cpp falls to the directory test and
    .hidden.cpp to the leading-dot test. *)
Theorem collect_sources_example
  (root : path) (c1 c2 c3 c4 : string) (tree : list node) :
  ~ In "build" root ->
  same_entries (example_tree c1 c2 c3 c4) tree ->
  exists l,
    collect_sources root tree = inr l
    /\ (forall p, In p l <-> p = ["main.cpp"] \/ p = ["lib"; "util.cpp"])
    /\ PurePath.has_part "build" (root ++ ["build"; "cached.cpp"]) = true
    /\ Str.startswith (PurePath.name (root ++ [".hidden.cpp"])) "." = true.
Proof.
  intros Hroot Hsame.
  destruct (same_entries_collect root _ _ Hsame) as [s [s' [Hs [Hs' Hperm]]]].
  exists s'. split; [exact Hs'|].
  rewrite (collect_sources_clean_root _ _ Hroot) in Hs.
  injection Hs as <-. split; [|split].
  - intros p. rewrite <- (Permutation_In_iff _ _ Hperm p).
    simpl. intuition congruence.
  - rewrite has_part_app. apply orb_true_r.
  - now rewrite name_snoc.
Qed.

Lemma collect_sources_example_witness :
  exists l,
    collect_sources plain_root (example_tree "a" "b" "c" "d") = inr l
    /\ (forall p, In p l <-> p = ["main.cpp"] \/ p = ["lib"; "util.cpp"])
    /\ PurePath.has_part "build" (plain_root ++ ["build"; "cached.cpp"]) = true
    /\ Str.startswith (PurePath.name (plain_root ++ [".hidden.cpp"])) "." = true.
Proof.
  apply (collect_sources_example plain_root "a" "b" "c" "d").
  - unfold plain_root. simpl. intuition discriminate.
  - apply same_perm. reflexivity.
Defined.

(** C7: two scans of the same tree, even when its directories are listed
    in different orders, collect the same set of paths. *)
Theorem collect_sources_same_set (root : path) (t1 t2 : list node) :
  same_entries t1 t2 ->
  exists l1 l2,
    collect_sources root t1 = inr l1
    /\ collect_sources root t2 = inr l2
    /\ forall p, In p l1 <-> In p l2.
Proof.
  intros Hsame.
  destruct (same_entries_collect root _ _ Hsame) as [s [s' [Hs [Hs' Hperm]]]].
  exists s, s'. repeat split; try assumption; now apply Permutation_In_iff.
Qed.

Lemma collect_sources_same_set_witness :
  exists l1 l2,
    collect_sources plain_root
      [File "a.cpp" "1"; Dir "lib" [File "x.cpp" "2"; File "y.cpp" "3"]] = inr l1
    /\ collect_sources plain_root
         [Dir "lib" [File "y.cpp" "3"; File "x.cpp" "2"]; File "a.cpp" "1"] = inr l2
    /\ forall p, In p l1 <-> In p l2.
Proof.
  apply (collect_sources_same_set plain_root
           [File "a.cpp" "1"; Dir "lib" [File "x.cpp" "2"; File "y.cpp" "3"]]
           [Dir "lib" [File "y.cpp" "3"; File "x.cpp" "2"]; File "a.cpp" "1"]).
  apply same_trans with
    (l2 := [File "a.cpp" "1"; Dir "lib" [File "y.cpp" "3"; File "x.cpp" "2"]]).
  - apply same_cons; [apply same_file|].
    apply same_cons; [|apply same_nil].
    apply same_dir, same_perm, perm_swap.
  - apply same_perm, perm_swap.
Defined.

(** C8: when a part of the root's own absolute path is build, nothing is
    collected, whatever the tree holds: the test looks at all parts of the
    absolute path of each hit. *)
Theorem collect_sources_build_in_root (root : path) (tree : list node) :
  In "build" root -> collect_sources root tree = inr [].
Proof.
  intros Hroot. rewrite collect_sources_filter. f_equal.
  induction (rglob [] tree) as [|rel rels IH]; simpl; [reflexivity|].
  now rewrite (kept_build_root _ _ Hroot).
Qed.

Lemma collect_sources_build_in_root_witness :
  collect_sources build_root
    [File "main.cpp" "int main(){}"; Dir "lib" [File "util.cpp" "x"]] = inr [].
Proof.
  apply (collect_sources_build_in_root build_root).
  unfold build_root. simpl. tauto.
Defined.

(** C9: a .cpp file whose own name has no leading dot is collected even
    when a directory above it is hidden: the leading-dot test looks at the
    leaf name only. *)
Theorem collect_sources_below_hidden_dir
  (root : path) (tree : list node) (dirs : path) (nm c : string) :
  ~ In "build" root ->
  entry_at tree (dirs ++ [nm]) (File nm c) ->
  fnmatch_cpp nm = true ->
  Str.startswith nm "." = false ->
  ~ In "build" (dirs ++ [nm]) ->
  (exists d, In d dirs /\ Str.startswith d "." = true) ->
  exists l, collect_sources root tree = inr l /\ In (dirs ++ [nm]) l.
Proof.
  intros Hroot Hat Hm Hdot Hbuild _.
  eexists. split; [apply collect_sources_filter|].
  pose proof (collect_sources_filter root tree) as Hl.
  apply (collect_sources_In _ _ _ Hroot Hl).
  exists (File nm c). repeat split; try assumption.
  unfold skipped. now rewrite (has_part_notIn _ _ Hbuild), name_snoc, Hdot.
Qed.

Lemma collect_sources_below_hidden_dir_witness :
  exists l,
    collect_sources plain_root [Dir ".git" [File "gen.cpp" "x"]] = inr l
    /\ In ([".git"] ++ ["gen.cpp"]) l.
Proof.
  apply (collect_sources_below_hidden_dir plain_root
           [Dir ".git" [File "gen.cpp" "x"]] [".git"] "gen.cpp" "x").
  - unfold plain_root. simpl. intuition discriminate.
  - apply at_below with (cs := [File "gen.cpp" "x"]); [now left|].
    apply (at_here _ (File "gen.cpp" "x")). now left.
  - reflexivity.
  - reflexivity.
  - simpl. intuition discriminate.
  - exists ".git". split; [now left | reflexivity].
Defined.

(** C10: a run changes nothing in the working directory except, at most,
    the entry CMakeLists.txt: all other entries, subtrees included, are as
    before; with nothing collected the directory is untouched; and any
    change is the one write of the rendered text to CMakeLists.txt. *)
Theorem main_frame (root : path) (w : world) :
  let w' := snd (main root w) in
  others OUTPUT (cwd_entries w') = others OUTPUT (cwd_entries w)
  /\ (collect_sources root (cwd_entries w) = inr [] ->
      cwd_entries w' = cwd_entries w)
  /\ (cwd_entries w' = cwd_entries w
      \/ exists srcs,
           collect_sources root (cwd_entries w) = inr srcs
           /\ srcs <> []
           /\ write_entry OUTPUT (make_cmake srcs) (cwd_entries w)
              = inr (cwd_entries w')).
Proof.
  intros w'. subst w'.
  destruct (main_cases root w) as [srcs [Hc Hcases]].
  destruct Hcases as [[E Hm] | [[Hne [x [Hw Hm]]] | [Hne [es' [Hw Hm]]]]];
    rewrite Hm; simpl.
  - repeat split; auto.
  - repeat split; auto.
  - split; [|split].
    + eapply write_entry_others. exact Hw.
    + intros Hnone. rewrite Hnone in Hc. injection Hc as <-. contradiction.
    + right. exists srcs. auto.
Qed.

(** * Further properties of the script *)

(** ** [collect_sources] *)

Lemma skipped_false (p : path) :
  skipped p = false <->
  ~ In "build" p /\ Str.startswith (PurePath.name p) "." = false.
Proof.
  unfold skipped. rewrite orb_false_iff. split.
  - intros [Hb Hd]. split; [|exact Hd].
    intros Hin. apply has_part_In in Hin. congruence.
  - intros [Hb Hd]. split; [now apply has_part_notIn | exact Hd].
Qed.

Lemma entry_at_nonempty (es : list node) (rel : path) (n : node) :
  entry_at es rel n -> rel <> [].
Proof. destruct 1; discriminate. Qed.

(** X1: the scan never raises, and for every root it returns exactly the
    root-relative paths of the entries, files and directories alike,
    whose name ends with .cpp and has no leading dot, such that build is
    a part neither of the path nor of the root. *)
Theorem collect_sources_exactly (root : path) (tree : list node) :
  exists l,
    collect_sources root tree = inr l
    /\ forall rel,
         In rel l <->
         ~ In "build" root
         /\ exists n stem,
              entry_at tree rel n
              /\ node_name n = stem +++ ".cpp"
              /\ ~ In "build" rel
              /\ Str.startswith (node_name n) "." = false.
Proof.
  exists (filter (kept root) (rglob [] tree)).
  split; [apply collect_sources_filter|].
  intros rel. rewrite filter_In, rglob_In. unfold kept.
  rewrite negb_true_iff, skipped_false. split.
  - intros [[n [Hat Hm]] [Hb Hd]].
    rewrite name_app in Hd by (eapply entry_at_nonempty; eassumption).
    rewrite (entry_at_name _ _ _ Hat) in Hd.
    apply endswith_spec in Hm. destruct Hm as [stem Hstem].
    split; [intros H; apply Hb, in_or_app; now left|].
    exists n, stem. repeat split; try assumption.
    intros H. apply Hb, in_or_app. now right.
  - intros [Hroot [n [stem [Hat [Hstem [Hb Hd]]]]]]. split.
    + exists n. split; [assumption|].
      apply endswith_spec. now exists stem.
    + rewrite name_app by (eapply entry_at_nonempty; eassumption).
      rewrite (entry_at_name _ _ _ Hat). split; [|assumption].
      intros H. apply in_app_or in H. tauto.
Qed.

Lemma filter_map_comm {A B} (f : B -> bool) (g : A -> B) (l : list A) :
  filter f (map g l) = map g (filter (fun x => f (g x)) l).
Proof.
  induction l as [|x r IH]; simpl; [reflexivity|].
  destruct (f (g x)); simpl; now rewrite IH.
Qed.

Lemma kept_cons (root : path) (d : string) (rel : path) :
  kept root (d :: rel) = kept (root ++ [d]) rel.
Proof. unfold kept. now rewrite <- app_assoc. Qed.

Lemma below_filter (root : path) (n : node) :
  below root n = filter (kept root) (rglob_node [] n).
Proof.
  destruct n as [nm c | d cs]; [reflexivity|].
  unfold below. rewrite collect_sources_filter, rglob_node_dir, filter_map_comm.
  f_equal. apply filter_ext. intros rel. symmetry. apply kept_cons.
Qed.

(** X2: a scan is the kept entries of the directory itself, followed, for
    each subdirectory in listing order, by what a scan rooted in that
    subdirectory collects, under the subdirectory's name. *)
Theorem collect_sources_by_directory (root : path) (es : list node) :
  collect_sources root es
  = inr (top_level root es ++ flat_map (below root) es).
Proof.
  rewrite collect_sources_filter. f_equal.
  unfold rglob. rewrite filter_app. f_equal.
  - unfold select, top_level. rewrite filter_map_comm.
    induction es as [|x r IH]; simpl; [reflexivity|].
    unfold kept at 1. simpl.
    destruct (fnmatch_cpp (node_name x)); simpl; [|exact IH].
    destruct (skipped (root ++ [node_name x])); simpl; now rewrite <- IH.
  - induction es as [|x r IH]; simpl; [reflexivity|].
    now rewrite filter_app, IH, below_filter.
Qed.

Lemma strip_name (n : node) : node_name (strip n) = node_name n.
Proof. now destruct n. Qed.

Lemma select_strip (dir : path) (es : list node) :
  select dir (map strip es) = select dir es.
Proof.
  unfold select. induction es as [|x r IH]; simpl; [reflexivity|].
  rewrite strip_name.
  destruct (fnmatch_cpp (node_name x)); simpl; now rewrite ?strip_name, IH.
Qed.

Lemma rglob_node_strip (n : node) :
  forall parent, rglob_node parent (strip n) = rglob_node parent n.
Proof.
  induction n as [nm c | d cs IH] using node_forall_ind; intros parent; simpl.
  - reflexivity.
  - rewrite select_strip. f_equal.
    induction IH as [|x r Hx _ IHr]; simpl; [reflexivity|].
    now rewrite Hx, IHr.
Qed.

Lemma rglob_strip (root : path) (es : list node) :
  rglob root (map strip es) = rglob root es.
Proof.
  unfold rglob. rewrite select_strip. f_equal.
  induction es as [|x r IH]; simpl; [reflexivity|].
  now rewrite rglob_node_strip, IH.
Qed.

(** X3: the scan looks at names only: two trees that differ in nothing but
    the contents of their files are collected alike. *)
Theorem collect_sources_ignores_contents (root : path) (t1 t2 : list node) :
  map strip t1 = map strip t2 ->
  collect_sources root t1 = collect_sources root t2.
Proof.
  intros H. unfold collect_sources.
  now rewrite <- (rglob_strip root t1), <- (rglob_strip root t2), H.
Qed.

Lemma collect_sources_ignores_contents_witness :
  collect_sources plain_root
    [File "main.cpp" "int main(){}"; Dir "lib" [File "util.cpp" "void f();"]]
  = collect_sources plain_root
      [File "main.cpp" "// rewritten"; Dir "lib" [File "util.cpp" EmptyString]].
Proof.
  apply (collect_sources_ignores_contents plain_root
    [File "main.cpp" "int main(){}"; Dir "lib" [File "util.cpp" "void f();"]]
    [File "main.cpp" "// rewritten"; Dir "lib" [File "util.cpp" EmptyString]]).
  reflexivity.
Defined.

Lemma names_distinct_NoDup (l : list string) :
  names_distinct l = true -> NoDup l.
Proof.
  induction l as [|x r IH]; simpl; intros H; [constructor|].
  apply andb_true_iff in H. destruct H as [Hx Hr].
  constructor; [|now apply IH].
  intros Hin. apply negb_true_iff in Hx.
  assert (E : existsb (String.eqb x) r = true).
  { apply existsb_exists. exists x. split; [assumption | apply String.eqb_refl]. }
  congruence.
Qed.

Lemma rglob_node_head (n : node) (p : path) :
  In p (rglob_node [] n) ->
  exists rel, p = node_name n :: rel /\ rel <> [] /\ is_file n = false.
Proof.
  destruct n as [nm c | d cs]; [contradiction|].
  rewrite rglob_node_dir. intros H. apply in_map_iff in H.
  destruct H as [rel [<- Hrel]]. exists rel. repeat split.
  pose proof (rglob_nonempty [] cs) as Hne.
  rewrite Forall_forall in Hne. now apply Hne.
Qed.

Lemma select_NoDup (es : list node) :
  NoDup (map node_name es) -> NoDup (select [] es).
Proof.
  unfold select. induction es as [|x r IH]; simpl; intros H; [constructor|].
  inversion H as [|? ? Hx Hr]; subst.
  destruct (fnmatch_cpp (node_name x)); simpl; [|now apply IH].
  constructor; [|now apply IH].
  intros Hin. apply in_map_iff in Hin. destruct Hin as [y [E Hy]].
  injection E as E. apply filter_In in Hy. destruct Hy as [Hy _].
  apply Hx. rewrite <- E. now apply in_map.
Qed.

Lemma walk_NoDup (es : list node) :
  NoDup (map node_name es) ->
  Forall (fun n => NoDup (rglob_node [] n)) es ->
  NoDup (flat_map (rglob_node []) es).
Proof.
  induction es as [|x r IH]; simpl; intros Hn Hall; [constructor|].
  inversion Hn as [|? ? Hx Hr]; subst.
  inversion Hall as [|? ? Hhead Htail]; subst.
  apply NoDup_app; [assumption | now apply IH |].
  intros p Hp Hq. apply rglob_node_head in Hp.
  destruct Hp as [rel [-> _]].
  apply in_flat_map in Hq. destruct Hq as [y [Hy Hq]].
  apply rglob_node_head in Hq. destruct Hq as [rel' [E _]].
  injection E as E _. apply Hx. rewrite E. now apply in_map.
Qed.

Lemma rglob_NoDup_step (es : list node) :
  NoDup (map node_name es) ->
  Forall (fun n => NoDup (rglob_node [] n)) es ->
  NoDup (rglob [] es).
Proof.
  intros Hn Hall. unfold rglob.
  apply NoDup_app; [now apply select_NoDup | now apply walk_NoDup |].
  intros p Hp Hq. unfold select in Hp. apply in_map_iff in Hp.
  destruct Hp as [x [<- _]].
  apply in_flat_map in Hq. destruct Hq as [y [_ Hq]].
  apply rglob_node_head in Hq. destruct Hq as [rel [E [Hne _]]].
  injection E as _ E. now subst rel.
Qed.

Lemma map_cons_NoDup {A} (a : A) (l : list (list A)) :
  NoDup l -> NoDup (map (cons a) l).
Proof.
  induction 1 as [|x r Hx _ IH]; simpl; constructor; [|assumption].
  intros Hin. apply in_map_iff in Hin. destruct Hin as [y [E Hy]].
  injection E as ->. contradiction.
Qed.

Lemma rglob_node_NoDup (n : node) :
  wf_node n = true -> NoDup (rglob_node [] n).
Proof.
  induction n as [nm c | d cs IH] using node_forall_ind; intros Hwf.
  - constructor.
  - rewrite rglob_node_dir. simpl in Hwf.
    apply andb_true_iff in Hwf. destruct Hwf as [Hn Hcs].
    apply map_cons_NoDup.
    apply rglob_NoDup_step; [now apply names_distinct_NoDup|].
    rewrite forallb_forall in Hcs. rewrite Forall_forall in *.
    intros x Hx. apply IH; [assumption | now apply Hcs].
Qed.

(** X4: when no directory of the tree holds two entries of one name, no path
    is collected twice. *)
Theorem collect_sources_NoDup (root : path) (tree : list node) (l : list path) :
  wf_tree tree = true ->
  collect_sources root tree = inr l ->
  NoDup l.
Proof.
  intros Hwf Hl. rewrite collect_sources_filter in Hl. injection Hl as <-.
  apply NoDup_filter.
  unfold wf_tree in Hwf. apply andb_true_iff in Hwf. destruct Hwf as [Hn Hes].
  apply rglob_NoDup_step; [now apply names_distinct_NoDup|].
  rewrite forallb_forall in Hes. apply Forall_forall.
  intros x Hx. apply rglob_node_NoDup. now apply Hes.
Qed.

Lemma collect_sources_NoDup_witness :
  NoDup [["main.cpp"]; ["lib"; "main.cpp"]; ["lib"; "util.cpp"]].
Proof.
  apply (collect_sources_NoDup plain_root
    [File "main.cpp" "a"; Dir "lib" [File "main.cpp" "b"; File "util.cpp" "c"]]).
  - reflexivity.
  - reflexivity.
Defined.

(** ** [make_cmake] *)

Lemma append_inj_l (a x y : string) : a +++ x = a +++ y -> x = y.
Proof.
  induction a as [|c a IH]; simpl; intros H; [assumption|].
  injection H as H. now apply IH.
Qed.

Lemma append_inj_r (t x : string) : forall y, x +++ t = y +++ t -> x = y.
Proof.
  induction x as [|c x IH]; intros [|d y] H; simpl in H.
  - reflexivity.
  - apply (f_equal String.length) in H. simpl in H.
    rewrite length_append in H. lia.
  - apply (f_equal String.length) in H. simpl in H.
    rewrite length_append in H. lia.
  - injection H as -> H. f_equal. now apply IH.
Qed.

Lemma mentions_append (c : ascii) (a b : string) :
  mentions c (a +++ b) = mentions c a || mentions c b.
Proof.
  induction a as [|d a IH]; simpl; [reflexivity|].
  now rewrite IH, orb_assoc.
Qed.

Lemma mentions_join (c : ascii) (sep : string) (items : list string) :
  mentions c sep = false ->
  Forall (fun s => mentions c s = false) items ->
  mentions c (Str.join sep items) = false.
Proof.
  intros Hsep Hall. induction Hall as [|x r Hx Hr IH]; [reflexivity|].
  destruct r as [|y r]; [exact Hx|].
  change (Str.join sep (x :: y :: r))
    with (x +++ sep +++ Str.join sep (y :: r)).
  now rewrite !mentions_append, Hx, Hsep, IH.
Qed.

(** Two texts cut at the first occurrence of a character agree part by
    part. *)
Lemma cut_at (c : ascii) (x : string) :
  forall y r r',
    mentions c x = false -> mentions c y = false ->
    x +++ String c r = y +++ String c r' -> x = y /\ r = r'.
Proof.
  induction x as [|a x IH]; intros [|d y] r r' Hx Hy H; simpl in *.
  - injection H as ->. auto.
  - injection H as -> _. rewrite Ascii.eqb_refl in Hy. discriminate.
  - injection H as -> _. rewrite Ascii.eqb_refl in Hx. discriminate.
  - injection H as -> H.
    apply orb_false_iff in Hx. apply orb_false_iff in Hy.
    destruct (IH y r r') as [-> ->]; tauto.
Qed.

Lemma unlines_cons (l : string) (rest : list string) :
  unlines (l :: rest) = l +++ String newline (unlines rest).
Proof. reflexivity. Qed.

Lemma unlines_inj (l : list string) :
  forall l',
    Forall (fun s => mentions newline s = false) l ->
    Forall (fun s => mentions newline s = false) l' ->
    unlines l = unlines l' -> l = l'.
Proof.
  induction l as [|x r IH]; intros [|y r'] Hl Hl' H.
  - reflexivity.
  - rewrite unlines_cons in H. destruct y; discriminate.
  - rewrite unlines_cons in H. destruct x; discriminate.
  - rewrite !unlines_cons in H.
    inversion Hl; subst. inversion Hl'; subst.
    apply cut_at in H; try assumption. destruct H as [-> H].
    f_equal. now apply IH.
Qed.

Lemma join_cons2 (sep x y : string) (r : list string) :
  Str.join sep (x :: y :: r) = x +++ sep +++ Str.join sep (y :: r).
Proof. reflexivity. Qed.

Lemma str_inj (p : path) :
  forall q,
    p <> [] -> q <> [] ->
    Forall (fun s => mentions slash s = false) p ->
    Forall (fun s => mentions slash s = false) q ->
    PurePath.str p = PurePath.str q -> p = q.
Proof.
  unfold PurePath.str.
  induction p as [|x r IH]; intros [|y r'] Hp Hq Ap Aq H; try contradiction.
  inversion Ap as [|? ? Hx Hr]; subst. inversion Aq as [|? ? Hy Hr']; subst.
  destruct r as [|x2 r], r' as [|y2 r'].
  - simpl in H. now subst.
  - rewrite join_cons2 in H. simpl Str.join at 1 in H.
    rewrite H in Hx. cbn [String.append] in Hx.
    rewrite mentions_append in Hx. simpl in Hx.
    rewrite orb_true_r in Hx. discriminate.
  - rewrite join_cons2 in H. simpl Str.join at 2 in H.
    rewrite <- H in Hy. cbn [String.append] in Hy.
    rewrite mentions_append in Hy. simpl in Hy.
    rewrite orb_true_r in Hy. discriminate.
  - rewrite !join_cons2 in H.
    apply (cut_at slash) in H; try assumption. destruct H as [-> H].
    f_equal. apply IH; try assumption; discriminate.
Qed.

Lemma plain_path_parts (p : path) :
  plain_path p = true ->
  p <> []
  /\ Forall (fun s => s <> EmptyString) p
  /\ Forall (fun s => mentions slash s = false) p
  /\ Forall (fun s => mentions newline s = false) p.
Proof.
  destruct p as [|x r]; [discriminate|]. unfold plain_path.
  rewrite forallb_forall. intros H. split; [discriminate|].
  repeat split; apply Forall_forall; intros s Hs; apply H in Hs;
    unfold plain_segment in Hs;
    rewrite !andb_true_iff, !negb_true_iff in Hs;
    destruct Hs as [[H1 H2] H3]; try assumption.
  now apply String.eqb_neq.
Qed.

Lemma str_nonempty (p : path) :
  plain_path p = true -> PurePath.str p <> EmptyString.
Proof.
  intros H. apply plain_path_parts in H. destruct H as [Hne [Hseg _]].
  destruct p as [|x r]; [contradiction|].
  inversion Hseg; subst. destruct x as [|a x]; [contradiction|].
  unfold PurePath.str. destruct r; simpl; discriminate.
Qed.

Lemma src_line_plain (p : path) :
  plain_path p = true -> mentions newline (src_line p) = false.
Proof.
  intros H. apply plain_path_parts in H. destruct H as [_ [_ [_ Hnl]]].
  unfold src_line, PurePath.str. rewrite mentions_append.
  rewrite mentions_join; [reflexivity | reflexivity | assumption].
Qed.

Lemma src_line_inj (p q : path) :
  plain_path p = true -> plain_path q = true ->
  src_line p = src_line q -> p = q.
Proof.
  intros Hp Hq H. unfold src_line in H. apply append_inj_l in H.
  apply plain_path_parts in Hp. apply plain_path_parts in Hq.
  apply str_inj; tauto.
Qed.

Lemma src_lines_plain (l : list path) :
  forallb plain_path l = true ->
  Forall (fun s => mentions newline s = false) (src_lines l).
Proof.
  intros H. destruct l as [|p r]; [repeat constructor|].
  unfold src_lines. apply Forall_forall. intros s Hs.
  apply in_map_iff in Hs. destruct Hs as [q [<- Hq]].
  apply src_line_plain. rewrite forallb_forall in H. now apply H.
Qed.

Lemma map_src_line_inj (l1 : list path) :
  forall l2,
    forallb plain_path l1 = true -> forallb plain_path l2 = true ->
    map src_line l1 = map src_line l2 -> l1 = l2.
Proof.
  induction l1 as [|p r IH]; intros [|q r'] H1 H2 H; try discriminate.
  - reflexivity.
  - cbn [forallb] in H1, H2. cbn [map] in H.
    apply andb_true_iff in H1. apply andb_true_iff in H2.
    destruct H1 as [Hp Hr1]. destruct H2 as [Hq Hr2].
    pose proof (f_equal (hd EmptyString) H) as Hpq.
    pose proof (f_equal (@tl string) H) as Hr.
    cbn [hd tl] in Hpq, Hr. f_equal.
    + now apply src_line_inj.
    + now apply IH.
Qed.

Lemma src_lines_inj (l1 l2 : list path) :
  forallb plain_path l1 = true -> forallb plain_path l2 = true ->
  src_lines l1 = src_lines l2 -> l1 = l2.
Proof.
  intros H1 H2 H. destruct l1 as [|p r], l2 as [|q r'].
  - reflexivity.
  - exfalso. unfold src_lines in H. cbn [forallb] in H2. cbn [map] in H.
    apply andb_true_iff in H2. destruct H2 as [Hq _].
    pose proof (f_equal (hd EmptyString) H) as Hq'. cbn [hd] in Hq'.
    apply (str_nonempty q Hq).
    unfold src_line in Hq'.
    change "    " with ("    " +++ EmptyString) in Hq' at 1.
    apply append_inj_l in Hq'. now symmetry.
  - exfalso. unfold src_lines in H. cbn [forallb] in H1. cbn [map] in H.
    apply andb_true_iff in H1. destruct H1 as [Hp _].
    pose proof (f_equal (hd EmptyString) H) as Hp'. cbn [hd] in Hp'.
    apply (str_nonempty p Hp).
    unfold src_line in Hp'.
    change "    " with ("    " +++ EmptyString) in Hp' at 2.
    now apply append_inj_l in Hp'.
  - unfold src_lines in H. now apply map_src_line_inj.
Qed.

Lemma make_cmake_src_lines (srcs : list path) :
  make_cmake srcs
  = unlines head_lines +++ unlines (src_lines srcs) +++ unlines tail_lines.
Proof.
  destruct srcs as [|p r]; [reflexivity|].
  rewrite make_cmake_lines by discriminate. now rewrite !unlines_app.
Qed.

(** X5: the rendered text determines the list it was rendered from, as long
    as the paths are made of ordinary names (not empty, without
    separator or line break). *)
Theorem make_cmake_injective (l1 l2 : list path) :
  forallb plain_path l1 = true ->
  forallb plain_path l2 = true ->
  make_cmake l1 = make_cmake l2 ->
  l1 = l2.
Proof.
  intros H1 H2 H. rewrite !make_cmake_src_lines in H.
  apply append_inj_l, append_inj_r in H.
  apply src_lines_inj; try assumption.
  apply unlines_inj; [now apply src_lines_plain .. | assumption].
Qed.

Lemma make_cmake_injective_witness :
  [["main.cpp"]; ["lib"; "util.cpp"]] = [["main.cpp"]; ["lib"; "util.cpp"]].
Proof.
  apply (make_cmake_injective
           [["main.cpp"]; ["lib"; "util.cpp"]]
           [["main.cpp"]; ["lib"; "util.cpp"]]); reflexivity.
Defined.

(** A line break inside a name is not ordinary: one such path renders
    like two. *)
Example make_cmake_line_break :
  make_cmake [["a.cpp" +++ Str.nl +++ "    b.cpp"]]
  = make_cmake [["a.cpp"]; ["b.cpp"]].
Proof. reflexivity. Qed.

(** ** [__main__] *)


Lemma write_entry_blocked (nm text : string) (es : list node) :
  is_dir nm es = true -> write_entry nm text es = inl IsADirectoryError.
Proof.
  induction es as [|e r IH]; simpl; [discriminate|].
  destruct (String.eqb (node_name e) nm).
  - destruct e; [discriminate | reflexivity].
  - intros H. now rewrite IH.
Qed.

Lemma write_entry_over (nm t1 t2 : string) (es : list node) :
  forall es1,
    write_entry nm t1 es = inr es1 ->
    write_entry nm t2 es1 = write_entry nm t2 es.
Proof.
  induction es as [|e r IH]; simpl; intros es1 H.
  - injection H as <-. simpl. now rewrite String.eqb_refl.
  - destruct (String.eqb (node_name e) nm) eqn:E.
    + destruct e; [|discriminate]. injection H as <-.
      simpl. now rewrite String.eqb_refl.
    + destruct (write_entry nm t1 r) as [x|r']; [discriminate|].
      injection H as <-. simpl. rewrite E. now rewrite (IH r').
Qed.

(** X6: on the non-empty branch, when the write goes through, the run prints
    one line, the confirmation with the number of collected paths in
    decimal, and ends with status 0. *)
Theorem main_reports_count (root : path) (w : world) (srcs : list path) :
  collect_sources root (cwd_entries w) = inr srcs ->
  srcs <> [] ->
  is_dir OUTPUT (cwd_entries w) = false ->
  stdout (snd (main root w))
  = stdout w ++ ["CMakeLists.txt создан, найдено "
                 +++ Str.of_nat (List.length srcs) +++ " cpp файлов."]
  /\ exit_status (fst (main root w)) = 0.
Proof.
  intros Hsrcs Hne Hdir.
  destruct (main_cases root w) as [srcs' [Hc Hcases]].
  rewrite Hsrcs in Hc. injection Hc as <-.
  destruct Hcases as [[E _] | [[_ [x [Hw _]]] | [_ [es' [_ Hm]]]]].
  - contradiction.
  - apply write_entry_raises in Hw. congruence.
  - rewrite Hm. split; reflexivity.
Qed.

Lemma main_reports_count_witness :
  let w := World [File "a.cpp" "1"; Dir "lib" [File "b.cpp" "2"]] ["earlier"] in
  stdout (snd (main plain_root w))
  = stdout w ++ ["CMakeLists.txt создан, найдено "
                 +++ Str.of_nat (List.length [["a.cpp"]; ["lib"; "b.cpp"]])
                 +++ " cpp файлов."]
  /\ exit_status (fst (main plain_root w)) = 0.
Proof.
  apply (main_reports_count plain_root
           (World [File "a.cpp" "1"; Dir "lib" [File "b.cpp" "2"]] ["earlier"])
           [["a.cpp"]; ["lib"; "b.cpp"]]).
  - reflexivity.
  - discriminate.
  - reflexivity.
Defined.


(** X8: after a run that did not raise, CMakeLists.txt agrees with the
    directory as the run left it: whenever a fresh scan collects
    anything, the file holds the rendering of just that. *)
Theorem main_descriptor_up_to_date
  (root : path) (w : world) (srcs : list path) :
  fst (main root w) = inr tt ->
  collect_sources root (cwd_entries (snd (main root w))) = inr srcs ->
  srcs <> [] ->
  read_entry OUTPUT (cwd_entries (snd (main root w)))
  = Some (make_cmake srcs).
Proof.
  destruct (main_cases root w) as [srcs0 [Hc Hcases]].
  destruct Hcases as [[E Hm] | [[Hne [x [Hw Hm]]] | [Hne [es' [Hw Hm]]]]];
    rewrite Hm; simpl; intros Hok Hfresh Hsome.
  - subst srcs0. rewrite Hc in Hfresh. injection Hfresh as <-. contradiction.
  - discriminate.
  - unfold collect_sources in Hc, Hfresh.
    rewrite (write_entry_rglob _ _ root _ _ OUTPUT_not_source Hw) in Hfresh.
    rewrite Hc in Hfresh. injection Hfresh as <-.
    eapply write_entry_read. exact Hw.
Qed.

Lemma main_descriptor_up_to_date_witness :
  let w := World [File "CMakeLists.txt" "stale"; File "a.cpp" "1"] [] in
  read_entry OUTPUT (cwd_entries (snd (main plain_root w)))
  = Some (make_cmake [["a.cpp"]]).
Proof.
  apply (main_descriptor_up_to_date plain_root
           (World [File "CMakeLists.txt" "stale"; File "a.cpp" "1"] [])
           [["a.cpp"]]).
  - reflexivity.
  - reflexivity.
  - discriminate.
Defined.

(** X9: what CMakeLists.txt held before plays no part: overwrite it with any
    text first, and a run that collects something leaves the very same
    directory. *)
Theorem main_forgets_old_descriptor
  (root : path) (w : world) (old : string) (es0 : list node) :
  write_entry OUTPUT old (cwd_entries w) = inr es0 ->
  collect_sources root (cwd_entries w) <> inr [] ->
  cwd_entries (snd (main root (World es0 (stdout w))))
  = cwd_entries (snd (main root w)).
Proof.
  intros Hold Hsome.
  destruct (main_cases root w) as [srcs [Hc Hcases]].
  destruct (main_cases root (World es0 (stdout w))) as [srcs' [Hc' Hcases']].
  simpl in Hc', Hcases'. unfold collect_sources in Hc, Hc'.
  rewrite (write_entry_rglob _ _ root _ _ OUTPUT_not_source Hold) in Hc'.
  rewrite Hc in Hc'. injection Hc' as <-.
  rewrite (write_entry_over _ _ _ _ _ Hold) in Hcases'.
  fold (collect_sources root (cwd_entries w)) in Hc.
  destruct Hcases as [[E Hm] | [[Hne [x [Hw Hm]]] | [Hne [es' [Hw Hm]]]]].
  - subst srcs. contradiction.
  - pose proof (write_entry_raises _ _ _ _ Hw) as Hd.
    rewrite (write_entry_blocked _ old _ Hd) in Hold. discriminate.
  - destruct Hcases' as [[E _] | [[_ [x [Hw' _]]] | [_ [es'' [Hw' Hm']]]]].
    + contradiction.
    + congruence.
    + rewrite Hm, Hm'. simpl. congruence.
Qed.

Lemma main_forgets_old_descriptor_witness :
  cwd_entries (snd (main plain_root
     (World [File "a.cpp" "1"; File "CMakeLists.txt" "edited by hand"] [])))
  = cwd_entries (snd (main plain_root
     (World [File "a.cpp" "1"; File "CMakeLists.txt" "first draft"] []))).
Proof.
  apply (main_forgets_old_descriptor plain_root
     (World [File "a.cpp" "1"; File "CMakeLists.txt" "first draft"] [])
     "edited by hand"
     [File "a.cpp" "1"; File "CMakeLists.txt" "edited by hand"]).
  - reflexivity.
  - discriminate.
Defined.

Lemma filter_kept_build_root (root : path) (rels : list path) :
  In "build" root -> filter (kept root) rels = [].
Proof.
  intros Hroot. induction rels as [|rel rels IH]; simpl; [reflexivity|].
  now rewrite (kept_build_root _ _ Hroot).
Qed.

(** X10: started anywhere below a directory called build, the tool reports
    that nothing was found and leaves the directory alone, whatever the
    tree holds. *)
Theorem main_under_build_root (root : path) (w : world) :
  In "build" root ->
  main root w
  = (inr tt, World (cwd_entries w) (stdout w ++ ["*.cpp не найдено"])).
Proof.
  intros Hroot.
  destruct (main_cases root w) as [srcs [Hc Hcases]].
  rewrite collect_sources_filter, (filter_kept_build_root _ _ Hroot) in Hc.
  injection Hc as <-.
  destruct Hcases as [[_ Hm] | [[Hne _] | [Hne _]]]; try contradiction.
  exact Hm.
Qed.

Lemma main_under_build_root_witness :
  main build_root (World [File "main.cpp" "int main(){}"] [])
  = (inr tt, World [File "main.cpp" "int main(){}"] ["*.cpp не найдено"]).
Proof.
  apply (main_under_build_root build_root
           (World [File "main.cpp" "int main(){}"] [])).
  unfold build_root. simpl. tauto.
Defined.

(** X11: what a run prints does not depend on the order in which the
    directories are listed: two listings of one tree give the same line,
    with the same count, as long as neither run is stopped by a
    directory in the place of CMakeLists.txt. *)
Theorem main_prints_alike
  (root : path) (t1 t2 : list node) (out : list string) :
  same_entries t1 t2 ->
  is_dir OUTPUT t1 = false ->
  is_dir OUTPUT t2 = false ->
  stdout (snd (main root (World t1 out)))
  = stdout (snd (main root (World t2 out)))
  /\ fst (main root (World t1 out)) = fst (main root (World t2 out)).
Proof.
  intros Hsame Hd1 Hd2.
  destruct (same_entries_collect root _ _ Hsame) as [s [s' [Hs [Hs' Hperm]]]].
  destruct (main_cases root (World t1 out)) as [l1 [Hc1 Hcases1]].
  destruct (main_cases root (World t2 out)) as [l2 [Hc2 Hcases2]].
  simpl in Hc1, Hc2, Hcases1, Hcases2.
  rewrite Hs in Hc1. injection Hc1 as <-.
  rewrite Hs' in Hc2. injection Hc2 as <-.
  pose proof (Permutation_length Hperm) as Hlen.
  destruct Hcases1 as [[E1 Hm1] | [[_ [x [Hw _]]] | [Hne1 [e1 [_ Hm1]]]]].
  - subst s. apply Permutation_nil in Hperm. subst s'.
    destruct Hcases2 as [[_ Hm2] | [[Hne _] | [Hne _]]]; try contradiction.
    rewrite Hm1, Hm2. split; reflexivity.
  - apply write_entry_raises in Hw. congruence.
  - destruct Hcases2 as [[E2 _] | [[_ [x [Hw _]]] | [_ [e2 [_ Hm2]]]]].
    + subst s'. apply Permutation_sym, Permutation_nil in Hperm. contradiction.
    + apply write_entry_raises in Hw. congruence.
    + rewrite Hm1, Hm2. simpl. rewrite Hlen. split; reflexivity.
Qed.

Lemma main_prints_alike_witness :
  stdout (snd (main plain_root
     (World [File "a.cpp" "1"; Dir "lib" [File "x.cpp" "2"; File "y.cpp" "3"]] [])))
  = stdout (snd (main plain_root
     (World [Dir "lib" [File "x.cpp" "2"; File "y.cpp" "3"]; File "a.cpp" "1"] [])))
  /\ fst (main plain_root
     (World [File "a.cpp" "1"; Dir "lib" [File "x.cpp" "2"; File "y.cpp" "3"]] []))
     = fst (main plain_root
     (World [Dir "lib" [File "x.cpp" "2"; File "y.cpp" "3"]; File "a.cpp" "1"] [])).
Proof.
  apply (main_prints_alike plain_root
     [File "a.cpp" "1"; Dir "lib" [File "x.cpp" "2"; File "y.cpp" "3"]]
     [Dir "lib" [File "x.cpp" "2"; File "y.cpp" "3"]; File "a.cpp" "1"] []).
  - apply same_perm, perm_swap.
  - reflexivity.
  - reflexivity.
Defined.
